(** * xpress-calc: the offline-caching service worker

    A shallow embedding of [src/web/public/serviceworker.js]: the [fetch]
    event listener and [requestOverNetwork], over a model of the platform
    primitives the file calls ([caches.match], [fetch], [Response.clone],
    [caches.open], [Cache.put], [console.error], [event.respondWith]).

    A promise chain is a state-passing computation that settles as
    [Fulfilled] or [Rejected]; [then_] and [catch] are the two JavaScript
    combinators.  The world threaded through a chain holds the heap of
    [Response] objects (a response has an identity and a single-read body),
    the named cache stores, and the trace of platform calls in the order the
    worker makes them. *)

From stdpp Require Import gmap strings list fin_maps.

Local Open Scope string_scope.
Local Open Scope list_scope.

(** ** Data *)

(** A request is identified by the key the Cache API files it under. *)
Definition Request := string.
(** The value a promise rejects with. *)
Definition Reason := string.
(** What a response carries (status, headers and body bytes together). *)
Definition Body := string.

(** [event.request] *)
Record FetchEvent := { request : Request }.

(** A [Response] object: its content and whether its body was read. *)
Record Response := { content : Body; bodyUsed : bool }.

(** A fresh, unread response carrying [b]. *)
Definition unread (b : Body) : Response := {| content := b; bodyUsed := false |}.

(** The same response once its body has been read. *)
Definition used (o : Response) : Response := {| content := content o; bodyUsed := true |}.

(** A reference to a [Response] object: its index in the heap. *)
Abbreviation ref := nat.

(** How a promise settles. *)
Inductive settled (A : Type) : Type :=
| Fulfilled (a : A)
| Rejected (e : Reason).
Arguments Fulfilled {A} a.
Arguments Rejected {A} e.

(** The asynchronous platform primitives the worker calls. *)
Inductive Prim : Type :=
| CachesMatch (req : Request)
| Fetch (req : Request)
| CachesOpen (name : string)
| CachePut (name : string) (req : Request) (r : ref).

(** What the trace records: a primitive is called, a primitive settles
    (with the response it yields, if any), a response is cloned, a line is
    written with [console.error]. *)
Inductive Action : Type :=
| Call (p : Prim)
| Settle (p : Prim) (o : settled (option ref))
| Clone (src dst : ref)
| ConsoleError (msg : string) (reason : Reason).

Global Instance settled_eq_dec {A} `{EqDecision A} : EqDecision (settled A).
Proof. solve_decision. Defined.
Global Instance Prim_eq_dec : EqDecision Prim.
Proof. solve_decision. Defined.
Global Instance Action_eq_dec : EqDecision Action.
Proof. solve_decision. Defined.
Global Instance Response_eq_dec : EqDecision Response.
Proof. solve_decision. Defined.

(** One named cache store: request key to stored content. *)
Abbreviation Cache := (gmap Request Body).

(** The state of the platform as the worker sees it.  [caches] lists the
    named stores in creation order, the order [caches.match] searches. *)
Record World := {
  heap : list Response;
  caches : list (string * Cache);
  trace : list Action
}.

(** What the platform does that the worker does not decide: whether the
    lookup primitive fails, what the network answers, whether opening a store
    or writing an entry fails (a [put] of a non-GET request, a full quota). *)
Record Platform := {
  match_fault : Request -> option Reason;
  network : Request -> settled Body;
  open_fault : string -> option Reason;
  put_fault : string -> Request -> option Reason
}.

(** ** Promises *)

Definition Promise (A : Type) : Type := World -> settled A * World.

Definition resolve {A} (a : A) : Promise A := fun w => (Fulfilled a, w).

Definition reject {A} (e : Reason) : Promise A := fun w => (Rejected e, w).

(** [p.then(f)]: [f] runs once [p] is fulfilled; a rejection of [p], or of
    what [f] returns (also when [f] throws), is the rejection of the chain. *)
Definition then_ {A B} (p : Promise A) (f : A -> Promise B) : Promise B :=
  fun w =>
    match p w with
    | (Fulfilled a, w') => f a w'
    | (Rejected e, w') => (Rejected e, w')
    end.

(** [p.catch(h)]: [h] runs once [p] is rejected. *)
Definition catch {A} (p : Promise A) (h : Reason -> Promise A) : Promise A :=
  fun w =>
    match p w with
    | (Fulfilled a, w') => (Fulfilled a, w')
    | (Rejected e, w') => h e w'
    end.

(** A promise that is started and neither returned nor awaited: its effects
    on the platform happen, its outcome reaches nobody.  Its steps are placed
    in the trace where the chain is started; in this worker nothing else
    touches the platform for the same event after that point. *)
Definition detach {A} (p : Promise A) : Promise unit :=
  fun w => (Fulfilled tt, snd (p w)).

Notation "x <- p ;; k" := (then_ p (fun x => k))
  (at level 100, p at next level, right associativity, only parsing).
Notation "p ;; k" := (then_ p (fun _ => k))
  (at level 100, right associativity, only parsing).

(** ** Platform primitives *)

Definition with_heap (h : list Response) (w : World) : World :=
  {| heap := h; caches := caches w; trace := trace w |}.
Definition with_caches (cs : list (string * Cache)) (w : World) : World :=
  {| heap := heap w; caches := cs; trace := trace w |}.
Definition with_trace (t : list Action) (w : World) : World :=
  {| heap := heap w; caches := caches w; trace := t |}.

Definition emit (a : Action) : Promise unit :=
  fun w => (Fulfilled tt, with_trace (trace w ++ [a]) w).

(** A new [Response] object; its reference is the next free index. *)
Definition alloc (o : Response) : Promise ref :=
  fun w => (Fulfilled (length (heap w)), with_heap (heap w ++ [o]) w).

(** [console.error(msg, reason)] *)
Definition console_error (msg : string) (reason : Reason) : Promise unit :=
  emit (ConsoleError msg reason).

(** The first store, in creation order, that has an entry for [req]. *)
Fixpoint storage_match (req : Request) (cs : list (string * Cache)) : option Body :=
  match cs with
  | [] => None
  | (_, c) :: rest =>
      match c !! req with
      | Some b => Some b
      | None => storage_match req rest
      end
  end.

(** The store called [name], if there is one. *)
Fixpoint store_lookup (name : string) (cs : list (string * Cache)) : option Cache :=
  match cs with
  | [] => None
  | (n, c) :: rest => if decide (n = name) then Some c else store_lookup name rest
  end.

(** The entry of [req] in the store called [name]. *)
Definition store_entry (name : string) (req : Request) (cs : list (string * Cache)) : option Body :=
  match store_lookup name cs with
  | Some c => c !! req
  | None => None
  end.

(** [caches.open] creates the store when it does not exist yet. *)
Definition ensure_store (name : string) (cs : list (string * Cache)) : list (string * Cache) :=
  match store_lookup name cs with
  | Some _ => cs
  | None => cs ++ [(name, ∅)]
  end.

(** Writing [req := b] in the store called [name]. *)
Fixpoint put_entry (name : string) (req : Request) (b : Body) (cs : list (string * Cache))
  : list (string * Cache) :=
  match cs with
  | [] => []
  | (n, c) :: rest =>
      (n, if decide (n = name) then <[req := b]> c else c) :: put_entry name req b rest
  end.

(** [caches.match(req)]: rejects when the lookup layer fails; otherwise is
    fulfilled with a fresh [Response] built from the stored entry, or with
    [undefined] ([None]) on a miss. *)
Definition caches_match (P : Platform) (req : Request) : Promise (option ref) :=
  emit (Call (CachesMatch req)) ;;
  match match_fault P req with
  | Some e => emit (Settle (CachesMatch req) (Rejected e)) ;; reject e
  | None =>
      fun w =>
        match storage_match req (caches w) with
        | Some b =>
            (r <- alloc (unread b) ;;
             emit (Settle (CachesMatch req) (Fulfilled (Some r))) ;;
             resolve (Some r)) w
        | None =>
            (emit (Settle (CachesMatch req) (Fulfilled None)) ;; resolve None) w
        end
  end.

(** [fetch(req)]: fulfilled with a fresh, unread [Response], or rejected. *)
Definition fetch (P : Platform) (req : Request) : Promise ref :=
  emit (Call (Fetch req)) ;;
  match network P req with
  | Fulfilled b =>
      r <- alloc (unread b) ;;
      emit (Settle (Fetch req) (Fulfilled (Some r))) ;;
      resolve r
  | Rejected e => emit (Settle (Fetch req) (Rejected e)) ;; reject e
  end.

(** [response.clone()]: throws a TypeError when the body was already read;
    otherwise a second object with the same content, independently readable. *)
Definition clone (r : ref) : Promise ref :=
  fun w =>
    match heap w !! r with
    | Some o =>
        if bodyUsed o then (Rejected "TypeError", w)
        else (dst <- alloc (unread (content o)) ;;
              emit (Clone r dst) ;;
              resolve dst) w
    | None => (Rejected "TypeError", w)
    end.

(** [caches.open(name)]: fulfilled with the store (here its name). *)
Definition caches_open (P : Platform) (name : string) : Promise string :=
  emit (Call (CachesOpen name)) ;;
  match open_fault P name with
  | Some e => emit (Settle (CachesOpen name) (Rejected e)) ;; reject e
  | None =>
      (fun w => (Fulfilled tt, with_caches (ensure_store name (caches w)) w)) ;;
      emit (Settle (CachesOpen name) (Fulfilled None)) ;;
      resolve name
  end.

(** [cache.put(req, response)]: reads the body of [response] (so the object
    passed is used up) and files the content under [req]. *)
Definition cache_put (P : Platform) (cache : string) (req : Request) (r : ref) : Promise unit :=
  emit (Call (CachePut cache req r)) ;;
  match put_fault P cache req with
  | Some e => emit (Settle (CachePut cache req r) (Rejected e)) ;; reject e
  | None =>
      fun w =>
        match heap w !! r with
        | Some o =>
            if bodyUsed o then
              (emit (Settle (CachePut cache req r) (Rejected "TypeError")) ;;
               reject "TypeError") w
            else
              (emit (Settle (CachePut cache req r) (Fulfilled None)) ;; resolve tt)
                (with_caches (put_entry cache req (content o) (caches w))
                   (with_heap (<[r := used o]> (heap w)) w))
        | None =>
            (emit (Settle (CachePut cache req r) (Rejected "TypeError")) ;;
             reject "TypeError") w
        end
  end.

(** ** The worker *)

(** The statement of lines 20-22: the [open]/[put] chain is started and
    dropped, and inside it the promise of [cache.put] is dropped as well (the
    arrow function has a block body without [return]). *)
Definition cache_write (P : Platform) (event : FetchEvent) (responseClone : ref) : Promise unit :=
  detach (then_ (caches_open P "xpress-calc") (fun cache =>
            detach (cache_put P cache (request event) responseClone))).

(** [requestOverNetwork(event)], lines 16-28. *)
Definition requestOverNetwork (P : Platform) (event : FetchEvent) : Promise ref :=
  catch
    (then_ (fetch P (request event)) (fun response =>
       (* update the cache with a clone of the network response *)
       responseClone <- clone response ;;
       cache_write P event responseClone ;;
       resolve response))
    (fun reason =>
       console_error "ServiceWorker fetch failed: " reason ;;
       reject reason).

(** A promise of a [Response] where JavaScript expects a promise of any
    value, here a [Response] or [undefined]: the same settlement. *)
Definition as_value {A} (p : Promise A) : Promise (option A) :=
  fun w =>
    match p w with
    | (Fulfilled a, w') => (Fulfilled (Some a), w')
    | (Rejected e, w') => (Rejected e, w')
    end.

(** The promise the [fetch] listener hands to [event.respondWith],
    lines 3-12.  It settles with a [Response] or with [undefined]. *)
Definition listener (P : Platform) (event : FetchEvent) : Promise (option ref) :=
  catch
    (then_ (caches_match P (request event)) (fun cachedResponse =>
       let networkFetch := requestOverNetwork P event in
       (* prioritize cached response over network *)
       catch (as_value networkFetch) (fun _ => resolve cachedResponse)))
    (fun reason =>
       console_error "ServiceWorker cache match failed: " reason ;;
       let networkFetch := requestOverNetwork P event in
       as_value networkFetch).

(** What the page gets from [event.respondWith(p)]: the response when [p] is
    fulfilled with a [Response] whose body is unread, a failed request when
    [p] rejects or is fulfilled with anything else. *)
Inductive PageResult : Type :=
| Responded (r : ref)
| NetworkError.

Definition respondWith (p : Promise (option ref)) : World -> PageResult * World :=
  fun w =>
    match p w with
    | (Fulfilled (Some r), w') =>
        match heap w' !! r with
        | Some o => if bodyUsed o then (NetworkError, w') else (Responded r, w')
        | None => (NetworkError, w')
        end
    | (_, w') => (NetworkError, w')
    end.

(** The listener registered with [self.addEventListener('fetch', ...)]. *)
Definition on_fetch (P : Platform) (event : FetchEvent) : World -> PageResult * World :=
  respondWith (listener P event).

(** ** Reading the trace *)

(** The actions a computation added to the trace of [w]. *)
Definition new_actions (w w' : World) : list Action :=
  drop (length (trace w)) (trace w').

(** What handling [event] in [w] adds to the trace. *)
Definition handled (P : Platform) (event : FetchEvent) (w : World) : list Action :=
  new_actions w (snd (listener P event w)).

Definition is_fetch_call (a : Action) : bool :=
  match a with Call (Fetch _) => true | _ => false end.

(** How many times [fetch] was called. *)
Definition fetch_calls (t : list Action) : nat :=
  length (filter (fun a => is_fetch_call a = true) t).

(** The lines written with [console.error], in order. *)
Fixpoint console_errors (t : list Action) : list (string * Reason) :=
  match t with
  | [] => []
  | ConsoleError msg reason :: t' => (msg, reason) :: console_errors t'
  | _ :: t' => console_errors t'
  end.

(** Is [fetch] called while the outcome of the cache lookup is still
    unknown, that is before [caches.match] settles? *)
Fixpoint fetch_before_lookup_settles (t : list Action) : bool :=
  match t with
  | [] => false
  | Call (Fetch _) :: _ => true
  | Settle (CachesMatch _) _ :: _ => false
  | _ :: t' => fetch_before_lookup_settles t'
  end.

(** An action of the cache write of [requestOverNetwork]: a call or a
    settlement of [caches.open("xpress-calc")] or of [put] of [dup] under
    [req] in that store. *)
Definition write_action (req : Request) (dup : ref) (a : Action) : Prop :=
  match a with
  | Call p | Settle p _ =>
      p = CachesOpen "xpress-calc" \/ p = CachePut "xpress-calc" req dup
  | _ => False
  end.

(** The world in which the listener starts [requestOverNetwork]: the one
    the lookup leaves when it resolves (line 4), the one after the
    diagnostic of line 9 when it rejects (line 10). *)
Definition before_network (P : Platform) (event : FetchEvent) (w : World) : World :=
  match caches_match P (request event) w with
  | (Fulfilled _, w1) => w1
  | (Rejected reason, w1) =>
      snd (console_error "ServiceWorker cache match failed: " reason w1)
  end.

(** The content of the response a promise was fulfilled with. *)
Definition served (res : settled (option ref) * World) : settled (option Body) :=
  match fst res with
  | Fulfilled (Some r) => Fulfilled (content <$> heap (snd res) !! r)
  | Fulfilled None => Fulfilled None
  | Rejected e => Rejected e
  end.

(** ** Concrete worlds *)

Definition R0 : FetchEvent := {| request := "/index.html" |}.

Definition empty_world : World := {| heap := []; caches := []; trace := [] |}.

Definition cached_world : World :=
  {| heap := []; caches := [("xpress-calc", {["/index.html" := "v1"]})]; trace := [] |}.

Definition online (b : Body) : Platform :=
  {| match_fault := fun _ => None; network := fun _ => Fulfilled b;
     open_fault := fun _ => None; put_fault := fun _ _ => None |}.

Definition offline : Platform :=
  {| match_fault := fun _ => None; network := fun _ => Rejected "offline";
     open_fault := fun _ => None; put_fault := fun _ _ => None |}.

Definition lookup_broken (b : Body) : Platform :=
  {| match_fault := fun _ => Some "InvalidStateError"; network := fun _ => Fulfilled b;
     open_fault := fun _ => None; put_fault := fun _ _ => None |}.

(** A platform on which [put] rejects, as it does for a request that is not
    a GET. *)
Definition put_refused (b : Body) : Platform :=
  {| match_fault := fun _ => None; network := fun _ => Fulfilled b;
     open_fault := fun _ => None; put_fault := fun _ _ => Some "TypeError" |}.

(** ** Stores after an event, and runs of events *)

(** What handling [event] makes of the stores, read off lines 17-23 by what
    the platform does: nothing without a network response or when the store
    cannot be opened; the store opened (created when absent) when [put] is
    refused; the entry of the request written otherwise. *)
Definition refreshed (P : Platform) (event : FetchEvent) (cs : list (string * Cache))
  : list (string * Cache) :=
  match network P (request event) with
  | Rejected _ => cs
  | Fulfilled b =>
      match open_fault P "xpress-calc" with
      | Some _ => cs
      | None =>
          match put_fault P "xpress-calc" (request event) with
          | Some _ => ensure_store "xpress-calc" cs
          | None => put_entry "xpress-calc" (request event) b (ensure_store "xpress-calc" cs)
          end
      end
  end.

(** Does a store created before "xpress-calc" (or any store, when there is
    no "xpress-calc") hold an entry for [req]?  [caches.match] of line 3
    searches every store, the worker writes to "xpress-calc" only. *)
Fixpoint shadowed (req : Request) (cs : list (string * Cache)) : bool :=
  match cs with
  | [] => false
  | (n, c) :: rest =>
      if decide (n = "xpress-calc") then false
      else match c !! req with
           | Some _ => true
           | None => shadowed req rest
           end
  end.

(** The listener of line 1 stays registered: every event is handed to it.
    Here the events are handled one after the other, each on the platform as
    it is at that time, each to completion before the next. *)
Fixpoint serve (run : list (Platform * FetchEvent)) (w : World) : list PageResult * World :=
  match run with
  | [] => ([], w)
  | (P, event) :: rest =>
      (fst (on_fetch P event w) :: fst (serve rest (snd (on_fetch P event w))),
       snd (serve rest (snd (on_fetch P event w))))
  end.

(** Does [fetch] reject for the request of [event]? *)
Definition network_down (P : Platform) (event : FetchEvent) : bool :=
  match network P (request event) with
  | Rejected _ => true
  | Fulfilled _ => false
  end.

(** The keys of the requests of a run. *)
Definition requested (run : list (Platform * FetchEvent)) : list Request :=
  map (fun pe => request (snd pe)) run.

(** Reduces the projections of worlds and pairs, nothing else. *)
Tactic Notation "wsimpl" :=
  cbn [fst snd heap caches trace with_trace with_heap with_caches].
Tactic Notation "wsimpl" "in" hyp(H) :=
  cbn [fst snd heap caches trace with_trace with_heap with_caches] in H.

(** ** The primitives, step by step *)

Section Steps.

Context (P : Platform).

Lemma fetch_rejected req e w :
  network P req = Rejected e ->
  fetch P req w =
    (Rejected e,
     {| heap := heap w; caches := caches w;
        trace := trace w ++ [Call (Fetch req); Settle (Fetch req) (Rejected e)] |}).
Proof.
  intros Hnet. unfold fetch, then_, emit, reject. rewrite Hnet. simpl.
  by rewrite <- app_assoc.
Qed.

Lemma fetch_fulfilled req b w :
  network P req = Fulfilled b ->
  fetch P req w =
    (Fulfilled (length (heap w)),
     {| heap := heap w ++ [unread b]; caches := caches w;
        trace := trace w ++ [Call (Fetch req);
                             Settle (Fetch req) (Fulfilled (Some (length (heap w))))] |}).
Proof.
  intros Hnet. unfold fetch, then_, emit, alloc, resolve. rewrite Hnet. simpl.
  by rewrite <- app_assoc.
Qed.

Lemma clone_unread r b w :
  heap w !! r = Some (unread b) ->
  clone r w =
    (Fulfilled (length (heap w)),
     {| heap := heap w ++ [unread b]; caches := caches w;
        trace := trace w ++ [Clone r (length (heap w))] |}).
Proof. intros Hr. unfold clone. by rewrite Hr. Qed.

End Steps.

(** ** The named stores *)

Section Stores.

Implicit Types (cs : list (string * Cache)) (name n : string) (req key : Request).

Lemma store_lookup_app cs cs' name :
  store_lookup name (cs ++ cs') =
    match store_lookup name cs with
    | Some c => Some c
    | None => store_lookup name cs'
    end.
Proof.
  induction cs as [|[n c] cs IH]; simpl; [done|].
  by destruct (decide (n = name)).
Qed.

Lemma store_lookup_ensure_ne cs n name :
  name <> n -> store_lookup name (ensure_store n cs) = store_lookup name cs.
Proof.
  intros Hne. unfold ensure_store.
  destruct (store_lookup n cs) eqn:Hn; [done|].
  rewrite store_lookup_app. simpl.
  destruct (decide (n = name)); [congruence|].
  by destruct (store_lookup name cs).
Qed.

Lemma store_lookup_ensure_is_Some cs n : is_Some (store_lookup n (ensure_store n cs)).
Proof.
  unfold ensure_store. destruct (store_lookup n cs) eqn:Hn.
  - rewrite Hn. eauto.
  - rewrite store_lookup_app, Hn. simpl. rewrite decide_True by done. eauto.
Qed.

Lemma store_entry_ensure cs n key :
  store_entry n key (ensure_store n cs) = store_entry n key cs.
Proof.
  unfold store_entry, ensure_store.
  destruct (store_lookup n cs) eqn:Hn; [by rewrite Hn|].
  rewrite store_lookup_app, Hn. simpl. by rewrite decide_True.
Qed.

Lemma store_lookup_put_ne cs n req b name :
  name <> n -> store_lookup name (put_entry n req b cs) = store_lookup name cs.
Proof.
  intros Hne. induction cs as [|[m c] cs IH]; simpl; [done|].
  destruct (decide (m = name)) as [->|]; [|done].
  by rewrite decide_False.
Qed.

Lemma store_lookup_put cs n req b :
  store_lookup n (put_entry n req b cs) = insert req b <$> store_lookup n cs.
Proof.
  induction cs as [|[m c] cs IH]; simpl; [done|].
  by destruct (decide (m = n)).
Qed.

Lemma store_entry_put_ne cs n req b key :
  key <> req -> store_entry n key (put_entry n req b cs) = store_entry n key cs.
Proof.
  intros Hne. unfold store_entry. rewrite store_lookup_put.
  destruct (store_lookup n cs) as [c|]; simpl; [|done].
  by rewrite lookup_insert_ne.
Qed.

Lemma store_entry_put_eq cs n req b :
  is_Some (store_lookup n cs) -> store_entry n req (put_entry n req b cs) = Some b.
Proof.
  intros [c Hc]. unfold store_entry. rewrite store_lookup_put, Hc. simpl.
  by rewrite lookup_insert_eq.
Qed.

End Stores.

(** ** The cache write of [requestOverNetwork] *)

Section CacheWrite.

Context (P : Platform) (event : FetchEvent).

Ltac run_write :=
  unfold cache_write, caches_open, cache_put, detach, then_, emit, reject, resolve;
  wsimpl.

Ltac write_actions :=
  repeat (apply Forall_cons_2; [simpl; auto|]); apply Forall_nil_2.

Lemma cache_write_fulfilled dup w : fst (cache_write P event dup w) = Fulfilled tt.
Proof. done. Qed.

(** Every case of the write, by what the platform does. *)
Lemma cache_write_open_fails dup w e :
  open_fault P "xpress-calc" = Some e ->
  snd (cache_write P event dup w) =
    {| heap := heap w; caches := caches w;
       trace := trace w ++ [Call (CachesOpen "xpress-calc");
                            Settle (CachesOpen "xpress-calc") (Rejected e)] |}.
Proof. intros Ho. run_write. rewrite Ho. wsimpl. by rewrite <- app_assoc. Qed.

Lemma cache_write_put_fails dup w e :
  open_fault P "xpress-calc" = None ->
  put_fault P "xpress-calc" (request event) = Some e ->
  snd (cache_write P event dup w) =
    {| heap := heap w; caches := ensure_store "xpress-calc" (caches w);
       trace := trace w ++ [Call (CachesOpen "xpress-calc");
                            Settle (CachesOpen "xpress-calc") (Fulfilled None);
                            Call (CachePut "xpress-calc" (request event) dup);
                            Settle (CachePut "xpress-calc" (request event) dup) (Rejected e)] |}.
Proof.
  intros Ho Hp. run_write. rewrite Ho. wsimpl. rewrite Hp. wsimpl.
  by rewrite <- !app_assoc.
Qed.

Lemma cache_write_stored dup w b :
  open_fault P "xpress-calc" = None ->
  put_fault P "xpress-calc" (request event) = None ->
  heap w !! dup = Some (unread b) ->
  snd (cache_write P event dup w) =
    {| heap := <[dup := used (unread b)]> (heap w);
       caches := put_entry "xpress-calc" (request event) b
                   (ensure_store "xpress-calc" (caches w));
       trace := trace w ++ [Call (CachesOpen "xpress-calc");
                            Settle (CachesOpen "xpress-calc") (Fulfilled None);
                            Call (CachePut "xpress-calc" (request event) dup);
                            Settle (CachePut "xpress-calc" (request event) dup) (Fulfilled None)] |}.
Proof.
  intros Ho Hp Hdup. run_write. rewrite Ho. wsimpl. rewrite Hp. wsimpl.
  rewrite Hdup. wsimpl. by rewrite <- !app_assoc.
Qed.

(** What the write leaves alone, whatever the platform does. *)
Lemma cache_write_heap dup w r :
  r <> dup -> heap (snd (cache_write P event dup w)) !! r = heap w !! r.
Proof.
  intros Hne. run_write.
  destruct (open_fault P "xpress-calc"); wsimpl; [done|].
  destruct (put_fault P "xpress-calc" (request event)); wsimpl; [done|].
  destruct (heap w !! dup) as [o|]; wsimpl; [|done].
  destruct (bodyUsed o); wsimpl; [done|].
  by rewrite list_lookup_insert_ne.
Qed.

Lemma cache_write_other_store dup w name :
  name <> "xpress-calc" ->
  store_lookup name (caches (snd (cache_write P event dup w))) = store_lookup name (caches w).
Proof.
  intros Hne. run_write.
  destruct (open_fault P "xpress-calc"); wsimpl; [done|].
  destruct (put_fault P "xpress-calc" (request event)); wsimpl;
    [by apply store_lookup_ensure_ne|].
  destruct (heap w !! dup) as [o|]; wsimpl; [|by apply store_lookup_ensure_ne].
  destruct (bodyUsed o); wsimpl; [by apply store_lookup_ensure_ne|].
  rewrite store_lookup_put_ne by done. by apply store_lookup_ensure_ne.
Qed.

Lemma cache_write_other_key dup w key :
  key <> request event ->
  store_entry "xpress-calc" key (caches (snd (cache_write P event dup w))) =
    store_entry "xpress-calc" key (caches w).
Proof.
  intros Hne. run_write.
  destruct (open_fault P "xpress-calc"); wsimpl; [done|].
  destruct (put_fault P "xpress-calc" (request event)); wsimpl;
    [by apply store_entry_ensure|].
  destruct (heap w !! dup) as [o|]; wsimpl; [|by apply store_entry_ensure].
  destruct (bodyUsed o); wsimpl; [by apply store_entry_ensure|].
  rewrite store_entry_put_ne by done. by apply store_entry_ensure.
Qed.

Lemma cache_write_trace dup w :
  exists t : list Action,
    trace (snd (cache_write P event dup w)) =
      trace w ++ Call (CachesOpen "xpress-calc") :: t
    /\ Forall (write_action (request event) dup) t.
Proof.
  run_write.
  destruct (open_fault P "xpress-calc"); wsimpl.
  { eexists. rewrite <- app_assoc. split; [done|].
    write_actions. }
  destruct (put_fault P "xpress-calc" (request event)); wsimpl.
  { eexists. rewrite <- !app_assoc. split; [done|].
    write_actions. }
  destruct (heap w !! dup) as [o|]; wsimpl.
  - destruct (bodyUsed o); wsimpl;
      (eexists; rewrite <- !app_assoc; split; [done|]; write_actions).
  - eexists. rewrite <- !app_assoc. split; [done|].
    write_actions.
Qed.

End CacheWrite.

(** ** [requestOverNetwork] *)

Section Network.

Context (P : Platform) (event : FetchEvent).

Lemma heap_orig (h : list Response) a b : (h ++ [a; b]) !! length h = Some a.
Proof. by apply list_lookup_middle. Qed.

Lemma heap_dup (h : list Response) a b : (h ++ [a; b]) !! S (length h) = Some b.
Proof.
  rewrite lookup_app_r by lia.
  by replace (S (length h) - length h) with 1 by lia.
Qed.

Lemma cache_write_pair dup w :
  cache_write P event dup w = (Fulfilled tt, snd (cache_write P event dup w)).
Proof. done. Qed.

Lemma requestOverNetwork_rejected w e :
  network P (request event) = Rejected e ->
  requestOverNetwork P event w =
    (Rejected e,
     {| heap := heap w; caches := caches w;
        trace := trace w ++ [Call (Fetch (request event));
                             Settle (Fetch (request event)) (Rejected e);
                             ConsoleError "ServiceWorker fetch failed: " e] |}).
Proof.
  intros Hnet. unfold requestOverNetwork, catch. unfold then_ at 1.
  rewrite (fetch_rejected _ _ e) by done.
  unfold console_error, then_, emit, reject. wsimpl.
  by rewrite <- app_assoc.
Qed.

Lemma requestOverNetwork_fulfilled w b :
  network P (request event) = Fulfilled b ->
  requestOverNetwork P event w =
    (Fulfilled (length (heap w)),
     snd (cache_write P event (S (length (heap w)))
            {| heap := heap w ++ [unread b; unread b]; caches := caches w;
               trace := trace w ++ [Call (Fetch (request event));
                                    Settle (Fetch (request event))
                                      (Fulfilled (Some (length (heap w))));
                                    Clone (length (heap w)) (S (length (heap w)))] |})).
Proof.
  intros Hnet. unfold requestOverNetwork, catch. unfold then_ at 1.
  rewrite (fetch_fulfilled _ _ b) by done.
  unfold then_ at 1.
  rewrite (clone_unread _ b) by (wsimpl; by apply list_lookup_middle).
  wsimpl. unfold then_ at 1. rewrite cache_write_pair. unfold resolve.
  rewrite length_app, <- !app_assoc. simpl.
  by rewrite Nat.add_1_r.
Qed.

End Network.

(** ** The lookup and the listener *)

Section Listener.

Context (P : Platform) (event : FetchEvent).

Lemma caches_match_rejected w e :
  match_fault P (request event) = Some e ->
  caches_match P (request event) w =
    (Rejected e,
     {| heap := heap w; caches := caches w;
        trace := trace w ++ [Call (CachesMatch (request event));
                             Settle (CachesMatch (request event)) (Rejected e)] |}).
Proof.
  intros Hm. unfold caches_match, then_, emit, reject. rewrite Hm. wsimpl.
  by rewrite <- app_assoc.
Qed.

Lemma caches_match_hit w v :
  match_fault P (request event) = None ->
  storage_match (request event) (caches w) = Some v ->
  caches_match P (request event) w =
    (Fulfilled (Some (length (heap w))),
     {| heap := heap w ++ [unread v]; caches := caches w;
        trace := trace w ++ [Call (CachesMatch (request event));
                             Settle (CachesMatch (request event))
                               (Fulfilled (Some (length (heap w))))] |}).
Proof.
  intros Hm Hv. unfold caches_match, then_, emit, alloc, resolve. rewrite Hm. wsimpl.
  rewrite Hv. wsimpl. by rewrite <- app_assoc.
Qed.

Lemma caches_match_miss w :
  match_fault P (request event) = None ->
  storage_match (request event) (caches w) = None ->
  caches_match P (request event) w =
    (Fulfilled None,
     {| heap := heap w; caches := caches w;
        trace := trace w ++ [Call (CachesMatch (request event));
                             Settle (CachesMatch (request event)) (Fulfilled None)] |}).
Proof.
  intros Hm Hv. unfold caches_match, then_, emit, resolve. rewrite Hm. wsimpl.
  rewrite Hv. wsimpl. by rewrite <- app_assoc.
Qed.

(** The lookup rejects exactly when the lookup layer fails. *)
Lemma caches_match_fault w :
  match match_fault P (request event) with
  | Some e => fst (caches_match P (request event) w) = Rejected e
  | None => exists c, fst (caches_match P (request event) w) = Fulfilled c
  end.
Proof.
  destruct (match_fault P (request event)) as [e|] eqn:Hm.
  - by rewrite (caches_match_rejected w e).
  - destruct (storage_match (request event) (caches w)) as [v|] eqn:Hv.
    + rewrite (caches_match_hit w v) by done. eauto.
    + rewrite caches_match_miss by done. eauto.
Qed.

(** The world the network attempt starts in: the stores are as they were,
    the old responses are where they were, and the trace has grown by the
    lookup, its outcome, and at most the diagnostic of line 9. *)
Lemma before_network_caches w : caches (before_network P event w) = caches w.
Proof.
  unfold before_network.
  destruct (match_fault P (request event)) as [e|] eqn:Hm.
  { by rewrite (caches_match_rejected w e). }
  destruct (storage_match (request event) (caches w)) as [v|] eqn:Hv.
  - by rewrite (caches_match_hit w v).
  - by rewrite caches_match_miss.
Qed.

Lemma before_network_trace w :
  exists o pre,
    trace (before_network P event w) =
      trace w ++ Call (CachesMatch (request event))
              :: Settle (CachesMatch (request event)) o :: pre
    /\ match match_fault P (request event) with
       | Some e => o = Rejected e
                   /\ pre = [ConsoleError "ServiceWorker cache match failed: " e]
       | None => pre = []
       end.
Proof.
  unfold before_network.
  destruct (match_fault P (request event)) as [e|] eqn:Hm.
  { rewrite (caches_match_rejected w e) by done.
    unfold console_error, emit. wsimpl. rewrite <- app_assoc. simpl. eauto. }
  destruct (storage_match (request event) (caches w)) as [v|] eqn:Hv.
  - rewrite (caches_match_hit w v) by done. eauto.
  - rewrite caches_match_miss by done. eauto.
Qed.

(** The network answers: the listener is fulfilled with the response
    [fetch] created, whatever the lookup did; what is left is the write. *)
Lemma listener_online w b :
  network P (request event) = Fulfilled b ->
  let w1 := before_network P event w in
  listener P event w =
    (Fulfilled (Some (length (heap w1))),
     snd (cache_write P event (S (length (heap w1)))
            {| heap := heap w1 ++ [unread b; unread b]; caches := caches w1;
               trace := trace w1 ++ [Call (Fetch (request event));
                                     Settle (Fetch (request event))
                                       (Fulfilled (Some (length (heap w1))));
                                     Clone (length (heap w1)) (S (length (heap w1)))] |})).
Proof.
  intros Hnet. unfold listener, as_value, before_network, catch at 1, then_ at 1.
  destruct (caches_match P (request event) w) as [[c|e] w1].
  - unfold catch, then_. by rewrite (requestOverNetwork_fulfilled _ _ w1 b).
  - unfold then_ at 1. unfold console_error, emit. wsimpl. unfold then_.
    by rewrite (requestOverNetwork_fulfilled _ _ _ b).
Qed.

(** The network fails after the lookup resolved: the listener is fulfilled
    with what the lookup gave, a response or [undefined]. *)
Lemma listener_offline_resolved w e c :
  network P (request event) = Rejected e ->
  fst (caches_match P (request event) w) = Fulfilled c ->
  let w1 := before_network P event w in
  listener P event w =
    (Fulfilled c,
     {| heap := heap w1; caches := caches w1;
        trace := trace w1 ++ [Call (Fetch (request event));
                              Settle (Fetch (request event)) (Rejected e);
                              ConsoleError "ServiceWorker fetch failed: " e] |}).
Proof.
  intros Hnet Hc. unfold listener, as_value, before_network, catch at 1, then_ at 1.
  destruct (caches_match P (request event) w) as [[c'|e'] w1]; simpl in Hc; [|done].
  injection Hc as ->.
  unfold catch, then_. by rewrite (requestOverNetwork_rejected _ _ w1 e).
Qed.

(** The network fails after the lookup rejected: the listener rejects with
    the reason of the network. *)
Lemma listener_offline_rejected w e e' :
  network P (request event) = Rejected e ->
  fst (caches_match P (request event) w) = Rejected e' ->
  let w1 := before_network P event w in
  listener P event w =
    (Rejected e,
     {| heap := heap w1; caches := caches w1;
        trace := trace w1 ++ [Call (Fetch (request event));
                              Settle (Fetch (request event)) (Rejected e);
                              ConsoleError "ServiceWorker fetch failed: " e] |}).
Proof.
  intros Hnet Hc. unfold listener, as_value, before_network, catch at 1, then_ at 1.
  destruct (caches_match P (request event) w) as [[c'|e''] w1]; simpl in Hc; [done|].
  unfold then_ at 1. unfold console_error, emit. wsimpl. unfold then_.
  by rewrite (requestOverNetwork_rejected _ _ _ e).
Qed.

(** The lookup rejects: what is left of the listener is the network
    attempt, started after the diagnostic of line 9. *)
Lemma listener_lookup_rejected w e :
  fst (caches_match P (request event) w) = Rejected e ->
  listener P event w = as_value (requestOverNetwork P event) (before_network P event w).
Proof.
  intros Hc. unfold listener, before_network, catch at 1, then_ at 1.
  destruct (caches_match P (request event) w) as [[c'|e'] w1]; simpl in Hc; [done|].
  unfold then_ at 1. unfold console_error, emit. by wsimpl.
Qed.

End Listener.

(** ** What handling an event adds to the trace *)

Section Trace.

Context (P : Platform) (event : FetchEvent).

Lemma new_actions_app w w' t : trace w' = trace w ++ t -> new_actions w w' = t.
Proof. intros Ht. unfold new_actions. by rewrite Ht, drop_app_length. Qed.

Lemma fetch_calls_app t1 t2 : fetch_calls (t1 ++ t2) = fetch_calls t1 + fetch_calls t2.
Proof. unfold fetch_calls. by rewrite filter_app, length_app. Qed.

Lemma console_errors_app t1 t2 :
  console_errors (t1 ++ t2) = console_errors t1 ++ console_errors t2.
Proof.
  induction t1 as [|a t1 IH]; simpl; [done|].
  destruct a; simpl; by rewrite ?IH.
Qed.

Lemma write_actions_quiet req dup t :
  Forall (write_action req dup) t -> fetch_calls t = 0 /\ console_errors t = [].
Proof.
  induction 1 as [|a t Ha _ [IHf IHc]]; [done|].
  change (a :: t) with ([a] ++ t).
  rewrite fetch_calls_app, console_errors_app, IHf, IHc.
  destruct a as [p|p o| |]; simpl in Ha; try done;
    by destruct Ha as [-> | ->].
Qed.

(** The trace of one event: the lookup is called and settles; if it
    rejected, the diagnostic of line 9 follows; then [fetch] is called; then
    either it rejects and line 25 logs, or it is fulfilled, the response is
    cloned and the write runs. *)
Lemma handled_shape w :
  exists o pre net,
    handled P event w =
      Call (CachesMatch (request event)) :: Settle (CachesMatch (request event)) o
        :: pre ++ Call (Fetch (request event)) :: net
    /\ match match_fault P (request event) with
       | Some e => o = Rejected e
                   /\ pre = [ConsoleError "ServiceWorker cache match failed: " e]
       | None => pre = []
       end
    /\ match network P (request event) with
       | Rejected e =>
           net = [Settle (Fetch (request event)) (Rejected e);
                  ConsoleError "ServiceWorker fetch failed: " e]
       | Fulfilled b =>
           exists n t,
             net = Settle (Fetch (request event)) (Fulfilled (Some n))
                     :: Clone n (S n) :: Call (CachesOpen "xpress-calc") :: t
             /\ Forall (write_action (request event) (S n)) t
       end.
Proof.
  destruct (before_network_trace P event w) as (o & pre & Hpre & Hm).
  exists o, pre.
  destruct (network P (request event)) as [b|e] eqn:Hnet.
  - pose proof (listener_online P event w b Hnet) as Hrun. cbv zeta in Hrun.
    set (w1 := before_network P event w) in *.
    match type of Hrun with
    | _ = (_, snd (cache_write _ _ ?d ?w2)) =>
        destruct (cache_write_trace P event d w2) as (t & Ht & Hw)
    end.
    wsimpl in Ht.
    eexists. split; [|split; [exact Hm|exists (length (heap w1)), t; split; [reflexivity|exact Hw]]].
    unfold handled. apply new_actions_app.
    rewrite Hrun. wsimpl. rewrite Ht, Hpre.
    by rewrite <- !app_assoc.
  - eexists. split; [|split; [exact Hm|reflexivity]].
    unfold handled. apply new_actions_app.
    pose proof (caches_match_fault P event w) as Hc.
    destruct (match_fault P (request event)) as [e'|].
    + rewrite (listener_offline_rejected P event w e e') by done. wsimpl.
      rewrite Hpre. by rewrite <- !app_assoc.
    + destruct Hc as [c Hc].
      rewrite (listener_offline_resolved P event w e c) by done. wsimpl.
      rewrite Hpre. by rewrite <- !app_assoc.
Qed.

End Trace.

(** ** Outcomes *)

Section Outcomes.

Context (P : Platform) (event : FetchEvent).

Lemma caches_match_rejected_inv w e :
  fst (caches_match P (request event) w) = Rejected e ->
  match_fault P (request event) = Some e.
Proof.
  intros Hc. pose proof (caches_match_fault P event w) as Hf.
  destruct (match_fault P (request event)) as [e'|].
  - congruence.
  - destruct Hf as [c Hf]. congruence.
Qed.

Lemma caches_match_resolved_inv w c :
  fst (caches_match P (request event) w) = Fulfilled c ->
  match_fault P (request event) = None.
Proof.
  intros Hc. pose proof (caches_match_fault P event w) as Hf.
  destruct (match_fault P (request event)) as [e'|]; [congruence|done].
Qed.

(** A hit yields a fresh unread response carrying the stored entry. *)
Lemma caches_match_hit_inv w r :
  fst (caches_match P (request event) w) = Fulfilled (Some r) ->
  exists b,
    storage_match (request event) (caches w) = Some b
    /\ heap (before_network P event w) !! r = Some (unread b).
Proof.
  intros Hc. pose proof (caches_match_resolved_inv w _ Hc) as Hm.
  unfold before_network.
  destruct (storage_match (request event) (caches w)) as [b|] eqn:Hv.
  - rewrite (caches_match_hit P event w b) in * by done. wsimpl in Hc.
    injection Hc as <-. exists b. split; [done|]. wsimpl.
    by apply list_lookup_middle.
  - rewrite (caches_match_miss P event w) in Hc by done. done.
Qed.

(** With the network up, the listener is fulfilled with the response of
    [fetch], which nothing has read. *)
Lemma listener_online_result w b :
  network P (request event) = Fulfilled b ->
  let r := length (heap (before_network P event w)) in
  fst (listener P event w) = Fulfilled (Some r)
  /\ heap (snd (listener P event w)) !! r = Some (unread b).
Proof.
  intros Hnet r. rewrite (listener_online P event w b Hnet). wsimpl.
  split; [done|].
  rewrite cache_write_heap by (subst r; lia).
  wsimpl. apply heap_orig.
Qed.

(** With the network up and the write going through, the entry of the
    request in "xpress-calc" is what the network answered. *)
Lemma listener_online_stored w b :
  network P (request event) = Fulfilled b ->
  open_fault P "xpress-calc" = None ->
  put_fault P "xpress-calc" (request event) = None ->
  store_entry "xpress-calc" (request event) (caches (snd (listener P event w))) = Some b.
Proof.
  intros Hnet Ho Hp. rewrite (listener_online P event w b Hnet). wsimpl.
  rewrite (cache_write_stored P event _ _ b Ho Hp) by (wsimpl; apply heap_dup).
  wsimpl. apply store_entry_put_eq, store_lookup_ensure_is_Some.
Qed.

End Outcomes.

(** ** The scenarios of the specification, run *)

(** Scenario A: "v1" cached, the network down. *)
Example scenario_A : served (listener offline R0 cached_world) = Fulfilled (Some "v1").
Proof. vm_compute. reflexivity. Qed.

(** Scenario B: nothing cached, the network answers "v2"; a later lookup
    finds "v2". *)
Example scenario_B :
  served (listener (online "v2") R0 empty_world) = Fulfilled (Some "v2")
  /\ storage_match (request R0) (caches (snd (listener (online "v2") R0 empty_world)))
     = Some "v2".
Proof. split; vm_compute; reflexivity. Qed.

(** Scenario C: "v1" cached, the network answers "v2". *)
Example scenario_C :
  served (listener (online "v2") R0 cached_world) = Fulfilled (Some "v2")
  /\ store_entry "xpress-calc" (request R0)
       (caches (snd (listener (online "v2") R0 cached_world))) = Some "v2".
Proof. split; vm_compute; reflexivity. Qed.

(** Scenario D: the lookup primitive fails, the network answers "v3". *)
Example scenario_D :
  served (listener (lookup_broken "v3") R0 empty_world) = Fulfilled (Some "v3")
  /\ console_errors (handled (lookup_broken "v3") R0 empty_world)
     = [("ServiceWorker cache match failed: ", "InvalidStateError")].
Proof. split; vm_compute; reflexivity. Qed.

(** Nothing cached and the network down: fulfilled with [undefined]. *)
Example scenario_miss_offline :
  listener offline R0 empty_world =
    (Fulfilled None,
     {| heap := []; caches := [];
        trace := [Call (CachesMatch "/index.html");
                  Settle (CachesMatch "/index.html") (Fulfilled None);
                  Call (Fetch "/index.html");
                  Settle (Fetch "/index.html") (Rejected "offline");
                  ConsoleError "ServiceWorker fetch failed: " "offline"] |}).
Proof. vm_compute. reflexivity. Qed.

(** ** The properties of the specification *)

(** C1 (as amended).  When the network fetch of an intercepted request is
    fulfilled with content [b], the listener is fulfilled with a response
    carrying [b], whether the cache has an entry or not and whether the lookup
    rejected or not; and provided the dropped write goes through
    ([caches.open] and [cache.put] both fulfilled), the store "xpress-calc"
    then holds [b] under the key of the request. *)
Theorem C1_network_response_served_and_cached P event w b :
  network P (request event) = Fulfilled b ->
  exists r,
    fst (listener P event w) = Fulfilled (Some r)
    /\ heap (snd (listener P event w)) !! r = Some (unread b)
    /\ (open_fault P "xpress-calc" = None ->
        put_fault P "xpress-calc" (request event) = None ->
        store_entry "xpress-calc" (request event)
          (caches (snd (listener P event w))) = Some b).
Proof.
  intros Hnet.
  destruct (listener_online_result P event w b Hnet) as [Hres Hheap].
  eexists. split; [exact Hres|]. split; [exact Hheap|].
  intros Ho Hp. by apply listener_online_stored.
Qed.

Lemma C1_witness :
  exists r,
    fst (listener (online "v2") R0 cached_world) = Fulfilled (Some r)
    /\ heap (snd (listener (online "v2") R0 cached_world)) !! r = Some (unread "v2")
    /\ (open_fault (online "v2") "xpress-calc" = None ->
        put_fault (online "v2") "xpress-calc" (request R0) = None ->
        store_entry "xpress-calc" (request R0)
          (caches (snd (listener (online "v2") R0 cached_world))) = Some "v2").
Proof.
  apply (C1_network_response_served_and_cached (online "v2") R0 cached_world "v2").
  reflexivity.
Defined.

(** C1 as stated fails: the network answers "v2" for a request whose [put]
    the platform refuses; the listener is fulfilled, and the store still
    holds "v1". *)
Lemma C1_counterexample :
  network (put_refused "v2") (request R0) = Fulfilled "v2"
  /\ store_entry "xpress-calc" (request R0)
       (caches (snd (listener (put_refused "v2") R0 cached_world))) = Some "v1"
  /\ store_entry "xpress-calc" (request R0)
       (caches (snd (listener (put_refused "v2") R0 cached_world))) <> Some "v2".
Proof. split; [reflexivity|]. split; [vm_compute; reflexivity|vm_compute; discriminate]. Qed.

(** C2.  When the lookup is fulfilled with a cached response [v] and the
    network fetch rejects, the listener is fulfilled with [v]: the very
    object the lookup gave, unread, carrying the stored entry, and the page
    is answered with it. *)
Theorem C2_cached_response_when_network_fails P event w v e :
  fst (caches_match P (request event) w) = Fulfilled (Some v) ->
  network P (request event) = Rejected e ->
  fst (listener P event w) = Fulfilled (Some v)
  /\ (exists b, storage_match (request event) (caches w) = Some b
                /\ heap (snd (listener P event w)) !! v = Some (unread b))
  /\ fst (on_fetch P event w) = Responded v.
Proof.
  intros Hc Hnet.
  destruct (caches_match_hit_inv P event w v Hc) as (b & Hb & Hv).
  pose proof (listener_offline_resolved P event w e _ Hnet Hc) as Hrun.
  cbv zeta in Hrun.
  split; [by rewrite Hrun|]. split.
  - exists b. split; [done|]. by rewrite Hrun.
  - unfold on_fetch, respondWith. rewrite Hrun. wsimpl. by rewrite Hv.
Qed.

Lemma C2_witness :
  fst (listener offline R0 cached_world) = Fulfilled (Some 0)
  /\ (exists b, storage_match (request R0) (caches cached_world) = Some b
                /\ heap (snd (listener offline R0 cached_world)) !! 0 = Some (unread b))
  /\ fst (on_fetch offline R0 cached_world) = Responded 0.
Proof.
  apply (C2_cached_response_when_network_fails offline R0 cached_world 0 "offline").
  - vm_compute. reflexivity.
  - reflexivity.
Defined.

(** C3 (as amended).  When the lookup is fulfilled with no entry and the
    network fetch rejects, the promise handed to [respondWith] does not
    reject: it is fulfilled with [undefined].  No response reaches the page,
    whose request fails. *)
Theorem C3_miss_and_network_failure_gives_undefined P event w e :
  fst (caches_match P (request event) w) = Fulfilled None ->
  network P (request event) = Rejected e ->
  fst (listener P event w) = Fulfilled None
  /\ fst (on_fetch P event w) = NetworkError.
Proof.
  intros Hc Hnet.
  pose proof (listener_offline_resolved P event w e _ Hnet Hc) as Hrun.
  cbv zeta in Hrun.
  split; [by rewrite Hrun|].
  unfold on_fetch, respondWith. by rewrite Hrun.
Qed.

Lemma C3_witness :
  fst (listener offline R0 empty_world) = Fulfilled None
  /\ fst (on_fetch offline R0 empty_world) = NetworkError.
Proof.
  apply (C3_miss_and_network_failure_gives_undefined offline R0 empty_world "offline").
  - vm_compute. reflexivity.
  - reflexivity.
Defined.

(** C3 as stated fails: with no entry and the network down the listener
    does not reject. *)
Lemma C3_counterexample :
  fst (caches_match offline (request R0) empty_world) = Fulfilled None
  /\ network offline (request R0) = Rejected "offline"
  /\ ~ (exists e, fst (listener offline R0 empty_world) = Rejected e).
Proof.
  split; [vm_compute; reflexivity|]. split; [reflexivity|].
  intros [e He]. vm_compute in He. discriminate.
Qed.

(** C4.  When the lookup primitive itself rejects with [e], the listener
    writes one diagnostic (the lookup failure of line 9) and then calls
    [fetch], once and with no cached value to fall back on; it settles as
    the network attempt does: fulfilled with the response when [fetch] is
    fulfilled (the console then holds that one diagnostic), rejected with
    the reason of [fetch] when it rejects (after [requestOverNetwork] has
    logged that failure in turn). *)
Theorem C4_lookup_failure_logs_then_network_only P event w e :
  fst (caches_match P (request event) w) = Rejected e ->
  (exists net,
     handled P event w =
       [Call (CachesMatch (request event));
        Settle (CachesMatch (request event)) (Rejected e);
        ConsoleError "ServiceWorker cache match failed: " e;
        Call (Fetch (request event))] ++ net
     /\ fetch_calls net = 0)
  /\ listener P event w
     = as_value (requestOverNetwork P event) (before_network P event w)
  /\ match network P (request event) with
     | Fulfilled b =>
         (exists r, fst (listener P event w) = Fulfilled (Some r)
                    /\ heap (snd (listener P event w)) !! r = Some (unread b))
         /\ console_errors (handled P event w) =
              [("ServiceWorker cache match failed: ", e)]
     | Rejected e' =>
         fst (listener P event w) = Rejected e'
         /\ console_errors (handled P event w) =
              [("ServiceWorker cache match failed: ", e);
               ("ServiceWorker fetch failed: ", e')]
     end.
Proof.
  intros Hc. pose proof (caches_match_rejected_inv P event w e Hc) as Hm.
  destruct (handled_shape P event w) as (o & pre & net & Hh & Hpre & Hnet).
  rewrite Hm in Hpre. destruct Hpre as [-> ->]. simpl in Hh.
  destruct (network P (request event)) as [b|e'] eqn:Hn.
  - destruct Hnet as (n & t & -> & Hw).
    destruct (write_actions_quiet _ _ _ Hw) as [Hf Hq].
    split; [|split; [by apply (listener_lookup_rejected P event w e)|split]].
    + eexists. split; [exact Hh|].
      change (fetch_calls ([Settle (Fetch (request event)) (Fulfilled (Some n));
                            Clone n (S n); Call (CachesOpen "xpress-calc")] ++ t) = 0).
      by rewrite fetch_calls_app, Hf.
    + destruct (listener_online_result P event w b Hn) as [Hres Hheap]. eauto.
    + rewrite Hh. simpl. by rewrite Hq.
  - subst net. split; [|split; [by apply (listener_lookup_rejected P event w e)|split]].
    + eexists. split; [exact Hh|done].
    + by rewrite (listener_offline_rejected P event w e' e).
    + by rewrite Hh.
Qed.

Lemma C4_witness :
  (exists net,
     handled (lookup_broken "v3") R0 empty_world =
       [Call (CachesMatch (request R0));
        Settle (CachesMatch (request R0)) (Rejected "InvalidStateError");
        ConsoleError "ServiceWorker cache match failed: " "InvalidStateError";
        Call (Fetch (request R0))] ++ net
     /\ fetch_calls net = 0)
  /\ listener (lookup_broken "v3") R0 empty_world
     = as_value (requestOverNetwork (lookup_broken "v3") R0)
         (before_network (lookup_broken "v3") R0 empty_world)
  /\ (exists r, fst (listener (lookup_broken "v3") R0 empty_world) = Fulfilled (Some r)
                /\ heap (snd (listener (lookup_broken "v3") R0 empty_world)) !! r
                   = Some (unread "v3"))
     /\ console_errors (handled (lookup_broken "v3") R0 empty_world) =
          [("ServiceWorker cache match failed: ", "InvalidStateError")].
Proof.
  apply (C4_lookup_failure_logs_then_network_only
           (lookup_broken "v3") R0 empty_world "InvalidStateError").
  vm_compute. reflexivity.
Defined.

Lemma respondWith_fst p w :
  fst (respondWith p w) =
    match fst (p w) with
    | Fulfilled (Some r) =>
        match heap (snd (p w)) !! r with
        | Some o => if bodyUsed o then NetworkError else Responded r
        | None => NetworkError
        end
    | _ => NetworkError
    end.
Proof.
  unfold respondWith. destruct (p w) as [[[r|]|e] w']; cbn [fst snd]; try done.
  destruct (heap w' !! r) as [o|]; [by destruct (bodyUsed o)|done].
Qed.

(** Two platforms that differ at most in what [caches.open] and
    [cache.put] do make the same lookup. *)
Lemma caches_match_agree P P' req w :
  match_fault P req = match_fault P' req ->
  caches_match P req w = caches_match P' req w.
Proof. intros Hm. unfold caches_match. by rewrite Hm. Qed.

Lemma before_network_agree P P' event w :
  match_fault P (request event) = match_fault P' (request event) ->
  before_network P event w = before_network P' event w.
Proof.
  intros Hm. unfold before_network.
  by rewrite (caches_match_agree P P' _ w Hm).
Qed.

(** The console does not show the write. *)
Lemma console_errors_handled P event w :
  console_errors (handled P event w) =
    match match_fault P (request event) with
    | Some e => [("ServiceWorker cache match failed: ", e)]
    | None => []
    end ++
    match network P (request event) with
    | Fulfilled _ => []
    | Rejected e => [("ServiceWorker fetch failed: ", e)]
    end.
Proof.
  destruct (handled_shape P event w) as (o & pre & net & -> & Hpre & Hnet).
  cbn [console_errors]. rewrite console_errors_app. cbn [console_errors].
  f_equal.
  - destruct (match_fault P (request event)); [by destruct Hpre as [_ ->]|by subst].
  - destruct (network P (request event)).
    + destruct Hnet as (n & t & -> & Hw). simpl.
      by destruct (write_actions_quiet _ _ _ Hw).
    + by subst.
Qed.

(** C5.  Two platforms that agree on the lookup and on the network, and so
    differ at most in whether [caches.open] and [cache.put] succeed, settle
    the listener alike: the same value or the same rejection, the same answer
    to the page, the same console. *)
Theorem C5_cache_write_outcome_is_not_observed P P' event w :
  match_fault P (request event) = match_fault P' (request event) ->
  network P (request event) = network P' (request event) ->
  fst (listener P event w) = fst (listener P' event w)
  /\ fst (on_fetch P event w) = fst (on_fetch P' event w)
  /\ console_errors (handled P event w) = console_errors (handled P' event w).
Proof.
  intros Hm Hn. split; [|split].
  3: { by rewrite !console_errors_handled, Hm, Hn. }
  all: pose proof (before_network_agree P P' event w Hm) as Hw1;
    pose proof (caches_match_agree P P' (request event) w Hm) as Hcm;
    destruct (network P (request event)) as [b|e] eqn:HP; symmetry in Hn.
  - destruct (listener_online_result P event w b HP) as [-> _].
    destruct (listener_online_result P' event w b Hn) as [-> _].
    by rewrite Hw1.
  - destruct (fst (caches_match P (request event) w)) as [c|e'] eqn:Hc.
    + rewrite (listener_offline_resolved P event w e c) by done.
      rewrite (listener_offline_resolved P' event w e c) by (by rewrite <- ?Hcm).
      done.
    + rewrite (listener_offline_rejected P event w e e') by done.
      rewrite (listener_offline_rejected P' event w e e') by (by rewrite <- ?Hcm).
      done.
  - unfold on_fetch.
    destruct (listener_online_result P event w b HP) as [Hr Hh].
    destruct (listener_online_result P' event w b Hn) as [Hr' Hh'].
    rewrite <- Hw1 in Hr', Hh'.
    rewrite !respondWith_fst, Hr, Hr'. cbv beta iota. by rewrite Hh, Hh'.
  - unfold on_fetch, respondWith.
    destruct (fst (caches_match P (request event) w)) as [c|e'] eqn:Hc.
    + rewrite (listener_offline_resolved P event w e c) by done.
      rewrite (listener_offline_resolved P' event w e c) by (by rewrite <- ?Hcm).
      wsimpl. by rewrite Hw1.
    + rewrite (listener_offline_rejected P event w e e') by done.
      rewrite (listener_offline_rejected P' event w e e') by (by rewrite <- ?Hcm).
      done.
Qed.

Lemma C5_witness :
  fst (listener (online "v2") R0 cached_world) = fst (listener (put_refused "v2") R0 cached_world)
  /\ fst (on_fetch (online "v2") R0 cached_world)
     = fst (on_fetch (put_refused "v2") R0 cached_world)
  /\ console_errors (handled (online "v2") R0 cached_world)
     = console_errors (handled (put_refused "v2") R0 cached_world).
Proof.
  apply (C5_cache_write_outcome_is_not_observed (online "v2") (put_refused "v2") R0 cached_world);
    reflexivity.
Defined.

(** C6.  In [requestOverNetwork], when [fetch] is fulfilled with a response
    [orig], that response is cloned into a second object [dup] before the
    store is opened; every [put] of the write is a [put] of [dup] under the
    key of the request; the promise is fulfilled with [orig], whose body
    nothing has read.  When the write goes through the store holds the
    content under that key and the body that was read is the one of [dup]. *)
Theorem C6_clone_is_cached_original_is_returned P event w b :
  network P (request event) = Fulfilled b ->
  let orig := length (heap w) in
  let dup := S (length (heap w)) in
  let w' := snd (requestOverNetwork P event w) in
  fst (requestOverNetwork P event w) = Fulfilled orig
  /\ (exists t,
        new_actions w w' =
          [Call (Fetch (request event));
           Settle (Fetch (request event)) (Fulfilled (Some orig));
           Clone orig dup;
           Call (CachesOpen "xpress-calc")] ++ t
        /\ Forall (write_action (request event) dup) t)
  /\ heap w' !! orig = Some (unread b)
  /\ (open_fault P "xpress-calc" = None ->
      put_fault P "xpress-calc" (request event) = None ->
      store_entry "xpress-calc" (request event) (caches w') = Some b
      /\ heap w' !! dup = Some (used (unread b))).
Proof.
  intros Hnet orig dup w'. subst w'.
  rewrite (requestOverNetwork_fulfilled P event w b Hnet). wsimpl.
  split; [done|]. split; [|split].
  - match goal with
    | |- context [cache_write _ _ ?d ?w2] =>
        destruct (cache_write_trace P event d w2) as (t & Ht & Hw)
    end.
    wsimpl in Ht. exists t. split; [|exact Hw].
    apply new_actions_app. rewrite Ht. by rewrite <- app_assoc.
  - rewrite cache_write_heap by (subst orig; lia). wsimpl. apply heap_orig.
  - intros Ho Hp.
    rewrite (cache_write_stored P event _ _ b Ho Hp) by (wsimpl; apply heap_dup).
    wsimpl. split.
    + apply store_entry_put_eq, store_lookup_ensure_is_Some.
    + apply list_lookup_insert_eq. rewrite length_app. simpl. lia.
Qed.

Lemma C6_witness :
  fst (requestOverNetwork (online "v2") R0 empty_world) = Fulfilled 0
  /\ (exists t,
        new_actions empty_world (snd (requestOverNetwork (online "v2") R0 empty_world)) =
          [Call (Fetch (request R0));
           Settle (Fetch (request R0)) (Fulfilled (Some 0));
           Clone 0 1;
           Call (CachesOpen "xpress-calc")] ++ t
        /\ Forall (write_action (request R0) 1) t)
  /\ heap (snd (requestOverNetwork (online "v2") R0 empty_world)) !! 0 = Some (unread "v2")
  /\ (open_fault (online "v2") "xpress-calc" = None ->
      put_fault (online "v2") "xpress-calc" (request R0) = None ->
      store_entry "xpress-calc" (request R0)
        (caches (snd (requestOverNetwork (online "v2") R0 empty_world))) = Some "v2"
      /\ heap (snd (requestOverNetwork (online "v2") R0 empty_world)) !! 1
         = Some (used (unread "v2"))).
Proof.
  apply (C6_clone_is_cached_original_is_returned (online "v2") R0 empty_world "v2").
  reflexivity.
Defined.

(** C7 (as amended).  For every intercepted request the listener first
    calls [caches.match] and does nothing else until it settles; [fetch] is
    called afterwards, from the continuation of the lookup (line 4 or line
    10).  The network attempt never starts while the outcome of the lookup is
    unknown. *)
Theorem C7_fetch_starts_after_lookup_settles P event w :
  exists o rest,
    handled P event w =
      Call (CachesMatch (request event)) :: Settle (CachesMatch (request event)) o :: rest
    /\ Call (Fetch (request event)) ∈ rest
    /\ fetch_before_lookup_settles (handled P event w) = false.
Proof.
  destruct (handled_shape P event w) as (o & pre & net & Hh & _ & _).
  exists o, (pre ++ Call (Fetch (request event)) :: net).
  split; [exact Hh|]. split.
  - apply elem_of_app. right. apply elem_of_cons. by left.
  - by rewrite Hh.
Qed.

(** C7 as stated fails: with an entry cached and the network up, [fetch] is
    not called before the lookup has settled. *)
Lemma C7_counterexample :
  fetch_before_lookup_settles (handled (online "v2") R0 cached_world) <> true
  /\ take 3 (handled (online "v2") R0 cached_world) =
       [Call (CachesMatch "/index.html");
        Settle (CachesMatch "/index.html") (Fulfilled (Some 0));
        Call (Fetch "/index.html")].
Proof. split; [vm_compute; discriminate|vm_compute; reflexivity]. Qed.

(** Handling one event calls [fetch] once. *)
Lemma fetch_calls_handled P event w : fetch_calls (handled P event w) = 1.
Proof.
  destruct (handled_shape P event w) as (o & pre & net & -> & Hpre & Hnet).
  change (fetch_calls ([Call (CachesMatch (request event));
                        Settle (CachesMatch (request event)) o] ++ pre
                       ++ [Call (Fetch (request event))] ++ net) = 1).
  rewrite !fetch_calls_app.
  assert (fetch_calls pre = 0) as ->.
  { destruct (match_fault P (request event)); [by destruct Hpre as [_ ->]|by subst]. }
  assert (fetch_calls net = 0) as ->; [|done].
  destruct (network P (request event)).
  - destruct Hnet as (n & t & -> & Hw).
    change (fetch_calls ([Settle (Fetch (request event)) (Fulfilled (Some n));
                          Clone n (S n); Call (CachesOpen "xpress-calc")] ++ t) = 0).
    rewrite fetch_calls_app. by destruct (write_actions_quiet _ _ _ Hw) as [-> _].
  - by subst.
Qed.

(** C8 (as amended).  When the lookup primitive rejects, the continuation
    of line 4 does not run and no fetch is in flight; the handler of line 8
    makes the only call of [fetch] for the event. *)
Theorem C8_one_fetch_when_lookup_rejects P event w e :
  fst (caches_match P (request event) w) = Rejected e ->
  fetch_calls (handled P event w) = 1
  /\ exists net,
       handled P event w =
         [Call (CachesMatch (request event));
          Settle (CachesMatch (request event)) (Rejected e);
          ConsoleError "ServiceWorker cache match failed: " e;
          Call (Fetch (request event))] ++ net.
Proof.
  intros Hc. split; [apply fetch_calls_handled|].
  pose proof (caches_match_rejected_inv P event w e Hc) as Hm.
  destruct (handled_shape P event w) as (o & pre & net & Hh & Hpre & _).
  rewrite Hm in Hpre. destruct Hpre as [-> ->]. by exists net.
Qed.

Lemma C8_witness :
  fetch_calls (handled (lookup_broken "v3") R0 empty_world) = 1
  /\ exists net,
       handled (lookup_broken "v3") R0 empty_world =
         [Call (CachesMatch (request R0));
          Settle (CachesMatch (request R0)) (Rejected "InvalidStateError");
          ConsoleError "ServiceWorker cache match failed: " "InvalidStateError";
          Call (Fetch (request R0))] ++ net.
Proof.
  apply (C8_one_fetch_when_lookup_rejects (lookup_broken "v3") R0 empty_world
           "InvalidStateError").
  vm_compute. reflexivity.
Defined.

(** C8 as stated fails: the lookup rejects and [fetch] is called once, not
    twice. *)
Lemma C8_counterexample :
  fst (caches_match (lookup_broken "v3") (request R0) empty_world)
    = Rejected "InvalidStateError"
  /\ fetch_calls (handled (lookup_broken "v3") R0 empty_world) <> 2.
Proof. split; [vm_compute; reflexivity|vm_compute; discriminate]. Qed.

(** C9.  Whenever the lookup is fulfilled, with a response or with
    [undefined], the promise of the listener is fulfilled as well; with no
    entry and a rejecting [fetch] it is fulfilled with [undefined].  The
    listener rejects only when the lookup rejected, and then with the reason
    of the rejecting [fetch]. *)
Theorem C9_listener_rejects_only_when_lookup_rejects P event w :
  (forall c, fst (caches_match P (request event) w) = Fulfilled c ->
     exists v, fst (listener P event w) = Fulfilled v)
  /\ (fst (caches_match P (request event) w) = Fulfilled None ->
      forall e, network P (request event) = Rejected e ->
        fst (listener P event w) = Fulfilled None)
  /\ (forall e, fst (listener P event w) = Rejected e ->
        (exists e', fst (caches_match P (request event) w) = Rejected e')
        /\ network P (request event) = Rejected e).
Proof.
  assert (forall c, fst (caches_match P (request event) w) = Fulfilled c ->
            exists v, fst (listener P event w) = Fulfilled v) as Hresolved.
  { intros c Hc. destruct (network P (request event)) as [b|e] eqn:Hnet.
    - destruct (listener_online_result P event w b Hnet) as [Hr _]. eauto.
    - rewrite (listener_offline_resolved P event w e c) by done. eauto. }
  split; [exact Hresolved|]. split.
  - intros Hc e Hnet. by rewrite (listener_offline_resolved P event w e None).
  - intros e He.
    destruct (fst (caches_match P (request event) w)) as [c|e'] eqn:Hc.
    { destruct (Hresolved c eq_refl) as [v Hv]. congruence. }
    split; [eauto|].
    destruct (network P (request event)) as [b|e''] eqn:Hnet.
    + destruct (listener_online_result P event w b Hnet) as [Hr _]. congruence.
    + rewrite (listener_offline_rejected P event w e'' e') in He by done.
      wsimpl in He. congruence.
Qed.

Lemma C9_witness :
  fst (listener offline R0 empty_world) = Fulfilled None.
Proof.
  apply (proj1 (proj2 (C9_listener_rejects_only_when_lookup_rejects offline R0 empty_world)))
    with (e := "offline").
  - vm_compute. reflexivity.
  - reflexivity.
Defined.

(** C10.  Handling an event leaves every store other than "xpress-calc" as
    it was, leaves every entry of "xpress-calc" under another key as it was,
    and every [put] it makes is one into "xpress-calc" under the key of the
    request of the event. *)
Theorem C10_only_the_entry_of_the_request_is_written P event w :
  (forall name, name <> "xpress-calc" ->
     store_lookup name (caches (snd (listener P event w))) = store_lookup name (caches w))
  /\ (forall key, key <> request event ->
        store_entry "xpress-calc" key (caches (snd (listener P event w)))
        = store_entry "xpress-calc" key (caches w))
  /\ (forall name key r, Call (CachePut name key r) ∈ handled P event w ->
        name = "xpress-calc" /\ key = request event).
Proof.
  split; [|split].
  - intros name Hne. destruct (network P (request event)) as [b|e] eqn:Hnet.
    + rewrite (listener_online P event w b Hnet). wsimpl.
      rewrite cache_write_other_store by done. wsimpl.
      by rewrite before_network_caches.
    + destruct (fst (caches_match P (request event) w)) as [c|e'] eqn:Hc.
      * rewrite (listener_offline_resolved P event w e c) by done. wsimpl.
        by rewrite before_network_caches.
      * rewrite (listener_offline_rejected P event w e e') by done. wsimpl.
        by rewrite before_network_caches.
  - intros key Hne. destruct (network P (request event)) as [b|e] eqn:Hnet.
    + rewrite (listener_online P event w b Hnet). wsimpl.
      rewrite cache_write_other_key by done. wsimpl.
      by rewrite before_network_caches.
    + destruct (fst (caches_match P (request event) w)) as [c|e'] eqn:Hc.
      * rewrite (listener_offline_resolved P event w e c) by done. wsimpl.
        by rewrite before_network_caches.
      * rewrite (listener_offline_rejected P event w e e') by done. wsimpl.
        by rewrite before_network_caches.
  - intros name key r Hin.
    destruct (handled_shape P event w) as (o & pre & net & Hh & Hpre & Hnet).
    rewrite Hh in Hin.
    rewrite !elem_of_cons, elem_of_app, elem_of_cons in Hin.
    destruct Hin as [?|[?|[Hin|[?|Hin]]]]; try done.
    + destruct (match_fault P (request event)).
      * destruct Hpre as [_ ->]. apply list_elem_of_singleton in Hin. done.
      * subst pre. by apply elem_of_nil in Hin.
    + destruct (network P (request event)).
      * destruct Hnet as (n & t & -> & Hw).
        rewrite !elem_of_cons in Hin.
        destruct Hin as [?|[?|[?|Hin]]]; try done.
        rewrite Forall_forall in Hw. specialize (Hw _ Hin). simpl in Hw.
        destruct Hw as [?|Hw]; [done|]. by injection Hw as -> -> _.
      * subst net. rewrite !elem_of_cons in Hin.
        destruct Hin as [?|[?|Hin]]; try done. by apply elem_of_nil in Hin.
Qed.

Lemma C10_witness :
  store_lookup "other" (caches (snd (listener (online "v2") R0 cached_world)))
  = store_lookup "other" (caches cached_world).
Proof.
  apply (proj1 (C10_only_the_entry_of_the_request_is_written (online "v2") R0 cached_world)).
  discriminate.
Defined.

(** ** Beyond the listed properties: the state an event leaves *)

Section After.

Context (P : Platform) (event : FetchEvent).

(** [respondWith] reads the settlement; it changes nothing. *)
Lemma on_fetch_world w : snd (on_fetch P event w) = snd (listener P event w).
Proof.
  unfold on_fetch, respondWith.
  destruct (listener P event w) as [[[r|]|e] w']; cbn [fst snd]; try done.
  destruct (heap w' !! r) as [o|]; [by destruct (bodyUsed o)|done].
Qed.

Lemma before_network_heap w :
  exists extra, heap (before_network P event w) = heap w ++ extra.
Proof.
  unfold before_network.
  destruct (match_fault P (request event)) as [e|] eqn:Hm.
  { rewrite (caches_match_rejected P event w e) by done. exists []. wsimpl.
    unfold console_error, emit. wsimpl. by rewrite app_nil_r. }
  destruct (storage_match (request event) (caches w)) as [v|] eqn:Hv.
  - rewrite (caches_match_hit P event w v) by done. by eexists.
  - rewrite (caches_match_miss P event w) by done. exists []. wsimpl.
    by rewrite app_nil_r.
Qed.

(** The stores an event leaves are [refreshed] of the stores it found. *)
Lemma listener_caches w :
  caches (snd (listener P event w)) = refreshed P event (caches w).
Proof.
  unfold refreshed. destruct (network P (request event)) as [b|e] eqn:Hnet.
  - rewrite (listener_online P event w b Hnet). wsimpl.
    destruct (open_fault P "xpress-calc") as [eo|] eqn:Ho.
    { rewrite (cache_write_open_fails P event _ _ eo Ho). wsimpl.
      apply before_network_caches. }
    destruct (put_fault P "xpress-calc" (request event)) as [ep|] eqn:Hp.
    { rewrite (cache_write_put_fails P event _ _ ep Ho Hp). wsimpl.
      by rewrite before_network_caches. }
    rewrite (cache_write_stored P event _ _ b Ho Hp) by (wsimpl; apply heap_dup).
    wsimpl. by rewrite before_network_caches.
  - destruct (fst (caches_match P (request event) w)) as [c|e'] eqn:Hc.
    + rewrite (listener_offline_resolved P event w e c) by done. wsimpl.
      apply before_network_caches.
    + rewrite (listener_offline_rejected P event w e e') by done. wsimpl.
      apply before_network_caches.
Qed.

(** The trace only grows, by what [handled] reads back. *)
Lemma listener_trace w :
  trace (snd (listener P event w)) = trace w ++ handled P event w.
Proof.
  assert (exists t, trace (snd (listener P event w)) = trace w ++ t) as [t Ht].
  { destruct (before_network_trace P event w) as (o & pre & Hpre & _).
    destruct (network P (request event)) as [b|e] eqn:Hnet.
    - rewrite (listener_online P event w b Hnet). wsimpl.
      match goal with
      | |- context [cache_write _ _ ?d ?w2] =>
          destruct (cache_write_trace P event d w2) as (t & Ht & _)
      end.
      wsimpl in Ht. rewrite Ht, Hpre. rewrite <- !app_assoc. by eexists.
    - destruct (fst (caches_match P (request event) w)) as [c|e'] eqn:Hc.
      + rewrite (listener_offline_resolved P event w e c) by done. wsimpl.
        rewrite Hpre, <- !app_assoc. by eexists.
      + rewrite (listener_offline_rejected P event w e e') by done. wsimpl.
        rewrite Hpre, <- !app_assoc. by eexists. }
  unfold handled. by rewrite (new_actions_app _ _ t Ht).
Qed.

End After.

(** X1.  When [fetch] rejects, [requestOverNetwork] rejects with the same
    reason after writing one line to the console; it creates no response,
    opens no store and leaves the stores as they were. *)
Theorem requestOverNetwork_failure_is_logged_and_propagated P event w e :
  network P (request event) = Rejected e ->
  fst (requestOverNetwork P event w) = Rejected e
  /\ new_actions w (snd (requestOverNetwork P event w)) =
       [Call (Fetch (request event));
        Settle (Fetch (request event)) (Rejected e);
        ConsoleError "ServiceWorker fetch failed: " e]
  /\ heap (snd (requestOverNetwork P event w)) = heap w
  /\ caches (snd (requestOverNetwork P event w)) = caches w.
Proof.
  intros Hnet. rewrite (requestOverNetwork_rejected P event w e Hnet). wsimpl.
  split; [done|]. split; [|done].
  by apply new_actions_app.
Qed.

Lemma requestOverNetwork_failure_witness :
  fst (requestOverNetwork offline R0 cached_world) = Rejected "offline"
  /\ new_actions cached_world (snd (requestOverNetwork offline R0 cached_world)) =
       [Call (Fetch (request R0));
        Settle (Fetch (request R0)) (Rejected "offline");
        ConsoleError "ServiceWorker fetch failed: " "offline"]
  /\ heap (snd (requestOverNetwork offline R0 cached_world)) = heap cached_world
  /\ caches (snd (requestOverNetwork offline R0 cached_world)) = caches cached_world.
Proof.
  apply (requestOverNetwork_failure_is_logged_and_propagated offline R0 cached_world "offline").
  reflexivity.
Defined.

(** X2.  The request of the page fails exactly when the network fetch
    rejects and the lookup gave no response (a miss, or a lookup that itself
    rejected); in every other case the page is answered with a response. *)
Theorem page_fails_iff_no_network_and_no_hit P event w :
  fst (on_fetch P event w) = NetworkError
  <-> (exists e, network P (request event) = Rejected e)
      /\ (forall v, fst (caches_match P (request event) w) <> Fulfilled (Some v)).
Proof.
  unfold on_fetch. rewrite respondWith_fst.
  destruct (network P (request event)) as [b|e] eqn:Hnet.
  - destruct (listener_online_result P event w b Hnet) as [Hr Hh].
    rewrite Hr. cbv beta iota. rewrite Hh. simpl.
    split; [done|]. by intros [[e He] _].
  - destruct (fst (caches_match P (request event) w)) as [[v|]|e'] eqn:Hc.
    + destruct (caches_match_hit_inv P event w v Hc) as (b & _ & Hv).
      rewrite (listener_offline_resolved P event w e _ Hnet Hc). wsimpl.
      rewrite Hv. simpl. split; [done|]. intros [_ Hno]. by destruct (Hno v).
    + rewrite (listener_offline_resolved P event w e _ Hnet Hc). wsimpl.
      split; [|done]. intros _. split; [by exists e|done].
    + rewrite (listener_offline_rejected P event w e e' Hnet Hc). wsimpl.
      split; [|done]. intros _. split; [by exists e|done].
Qed.

(** X3.  When the network fetch rejects, handling the event leaves the
    stores exactly as they were, whatever the lookup did, and no store is
    opened. *)
Theorem network_failure_leaves_stores_untouched P event w e :
  network P (request event) = Rejected e ->
  caches (snd (listener P event w)) = caches w
  /\ (forall name, Call (CachesOpen name) ∉ handled P event w).
Proof.
  intros Hnet. split.
  - rewrite listener_caches. unfold refreshed. by rewrite Hnet.
  - intros name Hin.
    destruct (handled_shape P event w) as (o & pre & net & Hh & Hpre & Hn).
    rewrite Hnet in Hn. subst net. rewrite Hh in Hin.
    rewrite !elem_of_cons, elem_of_app, !elem_of_cons in Hin.
    destruct Hin as [?|[?|[Hin|[?|[?|[?|Hin]]]]]]; try done.
    + destruct (match_fault P (request event)).
      * destruct Hpre as [_ ->]. by apply list_elem_of_singleton in Hin.
      * subst pre. by apply elem_of_nil in Hin.
    + by apply elem_of_nil in Hin.
Qed.

Lemma network_failure_leaves_stores_untouched_witness :
  caches (snd (listener offline R0 cached_world)) = caches cached_world
  /\ (forall name, Call (CachesOpen name) ∉ handled offline R0 cached_world).
Proof.
  apply (network_failure_leaves_stores_untouched offline R0 cached_world "offline").
  reflexivity.
Defined.

(** X4.  Handling an event never touches a response that existed before:
    every object of the heap is afterwards what it was, body unread if it was
    unread.  The listener only adds objects. *)
Theorem existing_responses_are_left_alone P event w r o :
  heap w !! r = Some o ->
  heap (snd (listener P event w)) !! r = Some o.
Proof.
  intros Hr. pose proof (lookup_lt_Some _ _ _ Hr) as Hlt.
  destruct (before_network_heap P event w) as [extra Hw1].
  assert (heap (before_network P event w) !! r = Some o) as Hr1.
  { rewrite Hw1. by apply lookup_app_l_Some. }
  pose proof (lookup_lt_Some _ _ _ Hr1) as Hlt1.
  destruct (network P (request event)) as [b|e] eqn:Hnet.
  - rewrite (listener_online P event w b Hnet). wsimpl.
    rewrite cache_write_heap by lia. wsimpl.
    by apply lookup_app_l_Some.
  - destruct (fst (caches_match P (request event) w)) as [c|e'] eqn:Hc.
    + by rewrite (listener_offline_resolved P event w e c).
    + by rewrite (listener_offline_rejected P event w e e').
Qed.

Lemma existing_responses_are_left_alone_witness :
  heap (snd (listener (online "v2") R0
               {| heap := [unread "old"]; caches := []; trace := [] |})) !! 0
  = Some (unread "old").
Proof.
  apply (existing_responses_are_left_alone (online "v2") R0
           {| heap := [unread "old"]; caches := []; trace := [] |} 0 (unread "old")).
  reflexivity.
Defined.

(** ** The algebra of [caches.open] and [cache.put] on the stores *)

Section StoreAlgebra.

Implicit Types (cs : list (string * Cache)) (name n : string) (req key : Request).

Lemma ensure_present cs n : is_Some (store_lookup n cs) -> ensure_store n cs = cs.
Proof. intros [c Hc]. unfold ensure_store. by rewrite Hc. Qed.

Lemma ensure_idem cs n : ensure_store n (ensure_store n cs) = ensure_store n cs.
Proof. apply ensure_present, store_lookup_ensure_is_Some. Qed.

Lemma ensure_after_put cs n req b :
  is_Some (store_lookup n cs) ->
  ensure_store n (put_entry n req b cs) = put_entry n req b cs.
Proof.
  intros [c Hc]. apply ensure_present. rewrite store_lookup_put, Hc. simpl. eauto.
Qed.

Lemma put_put_same cs n req b b' :
  put_entry n req b (put_entry n req b' cs) = put_entry n req b cs.
Proof.
  induction cs as [|[m c] cs IH]; simpl; [done|].
  rewrite IH. destruct (decide (m = n)); [|done].
  by rewrite insert_insert_eq.
Qed.

Lemma put_put_comm cs n req1 req2 b1 b2 :
  req1 <> req2 ->
  put_entry n req1 b1 (put_entry n req2 b2 cs)
  = put_entry n req2 b2 (put_entry n req1 b1 cs).
Proof.
  intros Hne. induction cs as [|[m c] cs IH]; simpl; [done|].
  rewrite IH. destruct (decide (m = n)); [|done].
  by rewrite insert_insert_ne.
Qed.

Lemma store_entry_ensure_any cs n name key :
  store_entry name key (ensure_store n cs) = store_entry name key cs.
Proof.
  destruct (decide (name = n)) as [->|Hne].
  - apply store_entry_ensure.
  - unfold store_entry. by rewrite store_lookup_ensure_ne.
Qed.

Lemma store_entry_put_other cs n req b name key :
  name <> n \/ key <> req ->
  store_entry name key (put_entry n req b cs) = store_entry name key cs.
Proof.
  intros Hne. destruct (decide (name = n)) as [->|Hn].
  - destruct Hne as [?|Hk]; [done|]. by apply store_entry_put_ne.
  - unfold store_entry. by rewrite store_lookup_put_ne.
Qed.

Lemma storage_match_ensure cs n req :
  storage_match req (ensure_store n cs) = storage_match req cs.
Proof.
  unfold ensure_store. destruct (store_lookup n cs); [done|].
  induction cs as [|[m c] cs IH]; simpl; [done|].
  by destruct (c !! req).
Qed.

Lemma shadowed_ensure cs req :
  shadowed req (ensure_store "xpress-calc" cs) = shadowed req cs.
Proof.
  unfold ensure_store. destruct (store_lookup "xpress-calc" cs); [done|].
  induction cs as [|[m c] cs IH]; simpl; [done|].
  destruct (decide (m = "xpress-calc")); [done|].
  by destruct (c !! req).
Qed.


(** With an entry of [req] in the way, a [put] of any key changes nothing
    of what the lookup finds for [req]. *)
Lemma storage_match_put_shadowed cs req req' b :
  shadowed req cs = true ->
  storage_match req (put_entry "xpress-calc" req' b cs) = storage_match req cs.
Proof.
  induction cs as [|[m c] cs IH]; simpl; [done|].
  destruct (decide (m = "xpress-calc")) as [->|Hm]; [done|].
  intros Hsh. destruct (c !! req); [done|]. by apply IH.
Qed.

End StoreAlgebra.

(** X5.  Handling an event never removes an entry from any store: an entry
    that was there is still there with its content, unless it is the entry
    of the request of the event in "xpress-calc", which may have been
    overwritten with what the network answered. *)
Theorem entries_are_never_removed P event w name key v :
  store_entry name key (caches w) = Some v ->
  exists v',
    store_entry name key (caches (snd (listener P event w))) = Some v'
    /\ (v' = v
        \/ (name = "xpress-calc" /\ key = request event
            /\ network P (request event) = Fulfilled v')).
Proof.
  intros Hv. rewrite listener_caches. unfold refreshed.
  destruct (network P (request event)) as [b|e] eqn:Hnet; [|eauto].
  destruct (open_fault P "xpress-calc"); [eauto|].
  destruct (put_fault P "xpress-calc" (request event)).
  { rewrite store_entry_ensure_any. eauto. }
  destruct (decide (name = "xpress-calc" /\ key = request event)) as [[-> ->]|Hne].
  - rewrite store_entry_put_eq by apply store_lookup_ensure_is_Some.
    exists b. split; [done|]. by right.
  - rewrite store_entry_put_other, store_entry_ensure_any; [eauto|].
    destruct (decide (name = "xpress-calc")); [|by left].
    right. intros ->. by apply Hne.
Qed.

Lemma entries_are_never_removed_witness :
  exists v',
    store_entry "xpress-calc" "/index.html"
      (caches (snd (listener (online "v2") R0 cached_world))) = Some v'
    /\ (v' = "v1"
        \/ ("xpress-calc" = "xpress-calc" /\ "/index.html" = request R0
            /\ network (online "v2") (request R0) = Fulfilled v')).
Proof.
  apply (entries_are_never_removed (online "v2") R0 cached_world
           "xpress-calc" "/index.html" "v1").
  vm_compute. reflexivity.
Defined.

(** X6.  When the network answers and the store opens but [put] is
    refused, the store "xpress-calc" exists afterwards, created empty if it
    was absent, and no entry of any store has changed. *)
Theorem refused_put_still_creates_the_store P event w b e :
  network P (request event) = Fulfilled b ->
  open_fault P "xpress-calc" = None ->
  put_fault P "xpress-calc" (request event) = Some e ->
  (store_lookup "xpress-calc" (caches w) = None ->
   store_lookup "xpress-calc" (caches (snd (listener P event w))) = Some ∅)
  /\ (forall name key,
        store_entry name key (caches (snd (listener P event w)))
        = store_entry name key (caches w)).
Proof.
  intros Hnet Ho Hp. rewrite listener_caches. unfold refreshed.
  rewrite Hnet, Ho, Hp. split.
  - intros Hnone. unfold ensure_store. rewrite Hnone.
    by rewrite store_lookup_app, Hnone.
  - intros name key. apply store_entry_ensure_any.
Qed.

Lemma refused_put_still_creates_the_store_witness :
  (store_lookup "xpress-calc" (caches empty_world) = None ->
   store_lookup "xpress-calc" (caches (snd (listener (put_refused "v2") R0 empty_world)))
   = Some ∅)
  /\ (forall name key,
        store_entry name key (caches (snd (listener (put_refused "v2") R0 empty_world)))
        = store_entry name key (caches empty_world)).
Proof.
  apply (refused_put_still_creates_the_store (put_refused "v2") R0 empty_world
           "v2" "TypeError"); reflexivity.
Defined.



(** X8.  When a store that [caches.match] searches before "xpress-calc"
    holds an entry for a request, no handling of any event changes what the
    lookup finds for that request: the refreshed entry of "xpress-calc" stays
    hidden behind it. *)
Theorem shadowed_request_is_never_refreshed P event w req :
  shadowed req (caches w) = true ->
  storage_match req (caches (snd (listener P event w))) = storage_match req (caches w).
Proof.
  intros Hsh. rewrite listener_caches. unfold refreshed.
  destruct (network P (request event)); [|done].
  destruct (open_fault P "xpress-calc"); [done|].
  destruct (put_fault P "xpress-calc" (request event)).
  - apply storage_match_ensure.
  - rewrite storage_match_put_shadowed by (by rewrite shadowed_ensure).
    apply storage_match_ensure.
Qed.

Lemma shadowed_request_is_never_refreshed_witness :
  storage_match "/index.html"
    (caches (snd (listener (online "v2") R0
                    {| heap := []; caches := [("v0", {["/index.html" := "old"]})];
                       trace := [] |})))
  = storage_match "/index.html" [("v0", {["/index.html" := "old"]})].
Proof.
  apply (shadowed_request_is_never_refreshed (online "v2") R0
           {| heap := []; caches := [("v0", {["/index.html" := "old"]})]; trace := [] |}
           "/index.html").
  vm_compute. reflexivity.
Defined.

(** X9.  Handling the same event a second time on the same platform leaves
    the stores as the first handling left them. *)
Theorem handling_twice_leaves_the_stores_as_once P event w :
  caches (snd (listener P event (snd (listener P event w))))
  = caches (snd (listener P event w)).
Proof.
  rewrite !listener_caches. unfold refreshed.
  destruct (network P (request event)); [|done].
  destruct (open_fault P "xpress-calc"); [done|].
  destruct (put_fault P "xpress-calc" (request event)).
  - apply ensure_idem.
  - rewrite ensure_after_put by apply store_lookup_ensure_is_Some.
    apply put_put_same.
Qed.

(** X10.  Events for two different requests can be handled in either order:
    the stores come out the same, whatever each platform does. *)
Theorem distinct_requests_commute_on_the_stores P1 P2 event1 event2 w :
  request event1 <> request event2 ->
  caches (snd (listener P2 event2 (snd (listener P1 event1 w))))
  = caches (snd (listener P1 event1 (snd (listener P2 event2 w)))).
Proof.
  intros Hne. rewrite !listener_caches. unfold refreshed.
  destruct (network P1 (request event1)), (network P2 (request event2)); try done;
    destruct (open_fault P1 "xpress-calc"), (open_fault P2 "xpress-calc"); try done;
    destruct (put_fault P1 "xpress-calc" (request event1)),
             (put_fault P2 "xpress-calc" (request event2));
    rewrite ?ensure_after_put by apply store_lookup_ensure_is_Some;
    rewrite ?ensure_idem; try done.
  by apply put_put_comm.
Qed.

Lemma distinct_requests_commute_on_the_stores_witness :
  caches (snd (listener (online "b") {| request := "/b" |}
                 (snd (listener (online "a") {| request := "/a" |} empty_world))))
  = caches (snd (listener (online "a") {| request := "/a" |}
                   (snd (listener (online "b") {| request := "/b" |} empty_world)))).
Proof.
  apply (distinct_requests_commute_on_the_stores
           (online "a") (online "b") {| request := "/a" |} {| request := "/b" |} empty_world).
  discriminate.
Defined.

(** ** Runs of events *)

Section Runs.

Implicit Types (run : list (Platform * FetchEvent)).

Lemma refreshed_other_store P event cs name :
  name <> "xpress-calc" ->
  store_lookup name (refreshed P event cs) = store_lookup name cs.
Proof.
  intros Hne. unfold refreshed.
  destruct (network P (request event)); [|done].
  destruct (open_fault P "xpress-calc"); [done|].
  destruct (put_fault P "xpress-calc" (request event)).
  - by apply store_lookup_ensure_ne.
  - rewrite store_lookup_put_ne by done. by apply store_lookup_ensure_ne.
Qed.

Lemma refreshed_other_key P event cs key :
  key <> request event ->
  store_entry "xpress-calc" key (refreshed P event cs) = store_entry "xpress-calc" key cs.
Proof.
  intros Hne. unfold refreshed.
  destruct (network P (request event)); [|done].
  destruct (open_fault P "xpress-calc"); [done|].
  destruct (put_fault P "xpress-calc" (request event)).
  - apply store_entry_ensure.
  - rewrite store_entry_put_ne by done. apply store_entry_ensure.
Qed.

(** The trace of a run is the trace before it and, for each event, one
    call of [fetch]. *)
Lemma serve_trace run : forall w,
  exists t, trace (snd (serve run w)) = trace w ++ t /\ fetch_calls t = length run.
Proof.
  induction run as [|[P event] run IH]; intros w; simpl.
  { exists []. by rewrite app_nil_r. }
  destruct (IH (snd (on_fetch P event w))) as (t & Ht & Hn).
  exists (handled P event w ++ t). split.
  - by rewrite Ht, on_fetch_world, listener_trace, <- app_assoc.
  - by rewrite fetch_calls_app, fetch_calls_handled, Hn.
Qed.

(** With the network down the answer is decided by the lookup alone. *)
Lemma offline_answer P event w e :
  network P (request event) = Rejected e ->
  fst (on_fetch P event w) = NetworkError
  <-> is_Some (match_fault P (request event))
      \/ storage_match (request event) (caches w) = None.
Proof.
  intros Hnet. unfold on_fetch. rewrite respondWith_fst.
  destruct (match_fault P (request event)) as [e'|] eqn:Hm.
  { rewrite (listener_offline_rejected P event w e e' Hnet)
      by (by rewrite (caches_match_rejected P event w e')).
    wsimpl. split; [eauto|done]. }
  destruct (storage_match (request event) (caches w)) as [v|] eqn:Hv.
  - assert (fst (caches_match P (request event) w)
            = Fulfilled (Some (length (heap w)))) as Hc
      by (by rewrite (caches_match_hit P event w v)).
    destruct (caches_match_hit_inv P event w _ Hc) as (b & _ & Hb).
    rewrite (listener_offline_resolved P event w e _ Hnet Hc). wsimpl.
    rewrite Hb. simpl. split; [done|]. intros [[? ?]|?]; done.
  - assert (fst (caches_match P (request event) w) = Fulfilled None) as Hc
      by (by rewrite (caches_match_miss P event w)).
    rewrite (listener_offline_resolved P event w e _ Hnet Hc). wsimpl.
    split; [eauto|done].
Qed.

End Runs.

(** X11.  Over any run of events, handled one after the other, [fetch] is
    called once per event and every event gets one answer. *)
Theorem one_fetch_and_one_answer_per_event run w :
  fetch_calls (new_actions w (snd (serve run w))) = length run
  /\ length (fst (serve run w)) = length run.
Proof.
  split.
  - destruct (serve_trace run w) as (t & Ht & Hn).
    by rewrite (new_actions_app _ _ t Ht).
  - revert w. induction run as [|[P event] run IH]; intros w; simpl; [done|].
    by rewrite IH.
Qed.

(** X12.  Over any run of events, every store other than "xpress-calc" is
    left as it was, and so is every entry of "xpress-calc" whose key no event
    of the run requested. *)
Theorem run_writes_only_requested_entries run w :
  (forall name, name <> "xpress-calc" ->
     store_lookup name (caches (snd (serve run w))) = store_lookup name (caches w))
  /\ (forall key, key ∉ requested run ->
        store_entry "xpress-calc" key (caches (snd (serve run w)))
        = store_entry "xpress-calc" key (caches w)).
Proof.
  revert w. induction run as [|[P event] run IH]; intros w; simpl; [done|].
  destruct (IH (snd (on_fetch P event w))) as [IHs IHk].
  split.
  - intros name Hne. rewrite (IHs name Hne), on_fetch_world, listener_caches.
    by apply refreshed_other_store.
  - intros key Hkey. apply not_elem_of_cons in Hkey as [Hk Hrest]. simpl in Hk.
    rewrite (IHk key Hrest), on_fetch_world, listener_caches.
    by apply refreshed_other_key.
Qed.

Lemma run_writes_only_requested_entries_witness :
  store_entry "xpress-calc" "/index.html"
    (caches (snd (serve [(online "a", {| request := "/a" |});
                         (online "b", {| request := "/b" |})] cached_world)))
  = store_entry "xpress-calc" "/index.html" (caches cached_world).
Proof.
  apply (proj2 (run_writes_only_requested_entries
                  [(online "a", {| request := "/a" |});
                   (online "b", {| request := "/b" |})] cached_world)).
  vm_compute. intros Hin. by repeat (apply elem_of_cons in Hin as [Hin|Hin]; [done|]);
    apply elem_of_nil in Hin.
Defined.

(** X13.  A run handled with the network down throughout leaves the stores
    exactly as they were, and each request fails exactly when its lookup
    rejects or the stores the run started with have no entry for it. *)
Theorem offline_run_only_reads run w :
  forallb (fun pe => network_down (fst pe) (snd pe)) run = true ->
  caches (snd (serve run w)) = caches w
  /\ Forall2 (fun pe answer =>
                answer = NetworkError
                <-> is_Some (match_fault (fst pe) (request (snd pe)))
                    \/ storage_match (request (snd pe)) (caches w) = None)
       run (fst (serve run w)).
Proof.
  revert w. induction run as [|[P event] run IH]; intros w Hdown; simpl.
  { split; [done|constructor]. }
  simpl in Hdown. apply andb_prop in Hdown as [Hd Hrest].
  unfold network_down in Hd.
  destruct (network P (request event)) as [b|e] eqn:Hnet; [done|].
  assert (caches (snd (on_fetch P event w)) = caches w) as Hsame.
  { rewrite on_fetch_world, listener_caches. unfold refreshed. by rewrite Hnet. }
  destruct (IH (snd (on_fetch P event w)) Hrest) as [IHc IHa].
  rewrite Hsame in IHc, IHa. split; [done|].
  constructor; [|done]. simpl. by apply (offline_answer P event w e).
Qed.

Lemma offline_run_only_reads_witness :
  caches (snd (serve [(offline, R0); (offline, {| request := "/missing" |})] cached_world))
  = caches cached_world
  /\ Forall2 (fun pe answer =>
                answer = NetworkError
                <-> is_Some (match_fault (fst pe) (request (snd pe)))
                    \/ storage_match (request (snd pe)) (caches cached_world) = None)
       [(offline, R0); (offline, {| request := "/missing" |})]
       (fst (serve [(offline, R0); (offline, {| request := "/missing" |})] cached_world)).
Proof.
  apply (offline_run_only_reads
           [(offline, R0); (offline, {| request := "/missing" |})] cached_world).
  reflexivity.
Defined.

